(** * Mystic Reader: the state handling of [src/src/App.tsx]

    The component [App] keeps six pieces of React state and has three
    handlers: [handleNumCardsChange], [handleCardNameChange] and the
    asynchronous [generateReading].  This development embeds them as
    programs over the state setters, gives the programs a semantics on
    a page (React state, console, requests sent, requests awaited), and
    proves the properties of the form and of the submission flow. *)

From Stdlib Require Import ZArith NArith Ascii String Decimal DecimalString.
From stdpp Require Import base list.

Local Open Scope Z_scope.

(** ** JavaScript strings

    A JavaScript string is a sequence of UTF-16 code units. *)

Abbreviation jsstring := (list N).

(** An ASCII literal of the source, as code units. *)
Definition lit (s : string) : jsstring :=
  N_of_ascii <$> list_ascii_of_string s.
Arguments lit s%_string.

Definition nl : jsstring := [10%N].
Definition dquote : jsstring := [34%N].

(** [WhiteSpace] and [LineTerminator] of ECMAScript, the code points that
    [String.prototype.trim] strips (all of them in the basic plane). *)
Definition is_whitespace (c : N) : bool :=
  ((9 <=? c) && (c <=? 13) || (c =? 32) || (c =? 0xA0) || (c =? 0x1680)
   || (0x2000 <=? c) && (c <=? 0x200A)
   || (c =? 0x2028) || (c =? 0x2029) || (c =? 0x202F) || (c =? 0x205F)
   || (c =? 0x3000) || (c =? 0xFEFF))%N.

Fixpoint trimStart (s : jsstring) : jsstring :=
  match s with
  | c :: s' => if is_whitespace c then trimStart s' else s
  | [] => []
  end.

Definition trimEnd (s : jsstring) : jsstring :=
  reverse (trimStart (reverse s)).

Definition trim (s : jsstring) : jsstring := trimEnd (trimStart s).

(** Truthiness of a string: every string but the empty one. *)
Definition truthy (s : jsstring) : bool :=
  match s with
  | [] => false
  | _ :: _ => true
  end.

(** [a || d] where [a] is a string or [undefined]. *)
Definition or_else (a : option jsstring) (d : jsstring) : jsstring :=
  match a with
  | Some s => if truthy s then s else d
  | None => d
  end.

(** [`${n}`] for a non-negative integer [n]: its decimal digits. *)
Definition number_to_string (n : nat) : jsstring :=
  lit (NilEmpty.string_of_uint (Nat.to_uint n)).

(** [lines.join(sep)]. *)
Fixpoint join (sep : jsstring) (lines : list jsstring) : jsstring :=
  match lines with
  | [] => []
  | [l] => l
  | l :: rest => l ++ sep ++ join sep rest
  end.


(** ** Arrays *)

(** [Array(num).fill(x)] for an integer [num]: a [RangeError] ([None])
    unless [0 <= num < 2^32]. *)
Definition Array_fill {A} (num : Z) (x : A) : option (list A) :=
  if (0 <=? num) && (num <? 2 ^ 32) then Some (replicate (Z.to_nat num) x)
  else None.

(** [a[index] = x] on a fresh copy of [a].  Within the array the element
    is replaced and at [index = a.length] the array grows by one.  Past
    that JavaScript leaves holes, which are no values of [string[]]:
    [None].  The form only passes indices of [cardNames.map]. *)
Definition array_set {A} (a : list A) (index : nat) (x : A) : option (list A) :=
  if decide (index < length a)%nat then Some (<[index := x]> a)
  else if decide (index = length a) then Some (a ++ [x])
  else None.

(** ** The state of the component (lines 10-15) *)

Record State := mkState {
  question : jsstring;
  numCards : Z;
  cardNames : list jsstring;
  reading : jsstring;
  isLoading : bool;
  error : jsstring;
}.

Definition initial_state : State :=
  {| question := []; numCards := 1; cardNames := [[]];
     reading := []; isLoading := false; error := [] |}.

(** ** The text-generation service *)

Record ChatMessage := { role : jsstring; content : jsstring }.

Record Request := {
  (** the key the client was constructed with *)
  apiKey : jsstring;
  model : jsstring;
  messages : list ChatMessage;
  max_tokens : Z;
  (** the sampling temperature, in tenths *)
  temperature_tenths : Z;
}.

(** A completion as the client library types it: [choices] is an array,
    a choice has a [message], whose [content] is a string or [null]. *)
Record ResponseMessage := { resp_content : option jsstring }.
Record Choice := { message : option ResponseMessage }.
Record ChatCompletion := { choices : list Choice }.

(** How the awaited promise settles; a rejection carries its reason. *)
Inductive Outcome :=
  | Resolved (completion : ChatCompletion)
  | Rejected (err : jsstring).

(** ** Handlers as programs over the setters *)

Inductive Act :=
  | setQuestion (q : jsstring)
  | setNumCards (num : Z)
  | setCardNames (names : list jsstring)
  | setReading (text : jsstring)
  | setIsLoading (b : bool)
  | setError (msg : jsstring)
  | console_error (label err : jsstring).

Inductive Exn := RangeError.

(** A handler performs setter calls, and may await the service once or
    more; the continuation of an [Await] is the rest of the [async]
    function. *)
Inductive Async :=
  | Return
  | Throw (e : Exn)
  | Do (a : Act) (k : Async)
  | Await (req : Request) (k : Outcome → Async).

Inductive ConsoleEntry :=
  | Logged (label err : jsstring)
  | Uncaught (e : Exn).

Definition set_state (a : Act) (s : State) : State :=
  match a with
  | setQuestion q =>
      mkState q (numCards s) (cardNames s) (reading s) (isLoading s) (error s)
  | setNumCards num =>
      mkState (question s) num (cardNames s) (reading s) (isLoading s) (error s)
  | setCardNames names =>
      mkState (question s) (numCards s) names (reading s) (isLoading s) (error s)
  | setReading text =>
      mkState (question s) (numCards s) (cardNames s) text (isLoading s) (error s)
  | setIsLoading b =>
      mkState (question s) (numCards s) (cardNames s) (reading s) b (error s)
  | setError msg =>
      mkState (question s) (numCards s) (cardNames s) (reading s) (isLoading s) msg
  | console_error _ _ => s
  end.

(** The page: the component's state and what it did to the outside. *)
Record Page := mkPage {
  ui : State;
  console : list ConsoleEntry;
  sent : list Request;
  pending : list (Outcome → Async);
}.

Definition initial_page : Page :=
  {| ui := initial_state; console := []; sent := []; pending := [] |}.

Definition perform (a : Act) (p : Page) : Page :=
  mkPage (set_state a (ui p))
         (match a with
          | console_error label err => console p ++ [Logged label err]
          | _ => console p
          end)
         (sent p) (pending p).

(** Runs a program until it returns, throws or suspends on the service. *)
Fixpoint exec (prog : Async) (p : Page) : Page :=
  match prog with
  | Return => p
  | Throw e => mkPage (ui p) (console p ++ [Uncaught e]) (sent p) (pending p)
  | Do a k => exec k (perform a p)
  | Await req k => mkPage (ui p) (console p) (sent p ++ [req]) (pending p ++ [k])
  end.

(** ** The handlers

    A handler closes over the state of the render it was created in;
    that state is the argument [s] (the setters act on the page). *)

(** Lines 17-21. *)
Definition handleNumCardsChange (s : State) (num : Z) : Async :=
  Do (setNumCards num)
     (match Array_fill num ([] : jsstring) with
      | Some blanks =>
          let newCardNames :=
            imap (λ index _, or_else (cardNames s !! index) []) blanks in
          Do (setCardNames newCardNames) Return
      | None => Throw RangeError
      end).

(** The names array that [handleNumCardsChange] builds. *)
Definition resized (names : list jsstring) (num : Z) : list jsstring :=
  imap (λ index _, or_else (names !! index) [])
       (replicate (Z.to_nat num) ([] : jsstring)).

(** Lines 23-27. *)
Definition handleCardNameChange (s : State) (index : nat) (name : jsstring)
  : option Async :=
  newCardNames ← array_set (cardNames s) index name;
  Some (Do (setCardNames newCardNames) Return).

(** The messages of lines 31, 37, 43, 97 and 100. *)
Definition msg_question : jsstring :=
  lit "Please enter your question or situation.".
Definition msg_cards : jsstring :=
  lit "Please enter at least one card name.".
Definition msg_apiKey : jsstring :=
  lit "OpenAI API key not configured. Please add your API key to the environment variables.".
Definition msg_fallback : jsstring :=
  lit "Unable to generate reading. Please try again.".
Definition msg_failed : jsstring :=
  lit "Failed to generate reading. Please check your API key and try again.".

Definition system_content : jsstring :=
  lit "You are an experienced, compassionate tarot reader with deep knowledge of tarot symbolism and interpretation. Provide thoughtful, insightful readings that help people reflect on their situations and find guidance.".

(** The template literal of lines 56-80, in its four fixed parts.  The
    characters outside ASCII in the section headings are given by code
    unit, as they stand in the file. *)
Definition prompt_head : jsstring :=
  lit "As an experienced tarot reader, please provide an insightful interpretation for this reading:" ++
  nl ++
  nl ++
  lit "Question/Situation: " ++ dquote.

Definition prompt_cards : jsstring :=
  dquote ++ nl ++
  nl ++
  lit "Cards drawn (".

Definition prompt_list : jsstring :=
  lit " cards):" ++ nl.

Definition prompt_tail : jsstring :=
  (nl ++
  nl ++
  lit "Please provide a thoughtful, compassionate interpretation that addresses the question and explains how each card relates to the situation. Include practical guidance and insights." ++ nl ++
  nl ++
  lit "Format your response with these sections using markdown:" ++ nl ++
  lit "# " ++ [0x011F; 0x0178; 0x0152; 0x0178] ++ lit " Your Tarot Reading" ++ nl ++
  lit "## " ++ [0x011F; 0x0178; 0x201C] ++ lit " Your Question" ++ nl ++
  lit "## " ++ [0x011F; 0x0178; 0x0192] ++ lit " Cards Drawn" ++ nl ++
  lit "## " ++ [0x00E2; 0x0153; 0x00A8] ++ lit " Overall Energy & Theme" ++ nl ++
  lit "## " ++ [0x011F; 0x0178; 0x201D; 0x00AE] ++ lit " Individual Card Interpretations" ++ nl ++
  lit "### Card 1: [Card Name]" ++ nl ++
  lit "**Position Meaning**: [meaning]" ++ nl ++
  lit "**Interpretation**: [detailed interpretation]" ++ nl ++
  lit "**Key Messages**: " ++ nl ++
  lit "- [message 1]" ++ nl ++
  lit "- [message 2]" ++ nl ++
  lit "- [message 3]" ++ nl ++
  lit "## " ++ [0x011F; 0x0178; 0x0152; 0x2122] ++ lit " Synthesis & Overall Guidance" ++ nl ++
  lit "## " ++ [0x011F; 0x0178; 0x2019; 0x00AB] ++ lit " Practical Next Steps" ++ nl ++
  lit "## " ++ [0x011F; 0x0178; 0x2122] ++ lit " Final Thoughts")%N.

(** [`${index + 1}. ${card}`] *)
Definition card_line (index : nat) (card : jsstring) : jsstring :=
  number_to_string (index + 1) ++ lit ". " ++ card.

Definition prompt_of (question : jsstring) (filledCards : list jsstring)
  : jsstring :=
  prompt_head ++ question ++ prompt_cards
  ++ number_to_string (length filledCards) ++ prompt_list
  ++ join nl (imap card_line filledCards) ++ prompt_tail.

(** Line 97: [completion.choices[0]?.message?.content || '...']. *)
Definition first_content (completion : ChatCompletion) : option jsstring :=
  choice ← choices completion !! 0%nat;
  msg ← message choice;
  resp_content msg.

Definition readingText (completion : ChatCompletion) : jsstring :=
  or_else (first_content completion) msg_fallback.

(** Lines 96-104: the rest of [generateReading] once the awaited call
    has settled: the end of the [try] block or the [catch] block, and
    then the [finally] block. *)
Definition on_settled (outcome : Outcome) : Async :=
  let finally := Do (setIsLoading false) Return in
  match outcome with
  | Resolved completion => Do (setReading (readingText completion)) finally
  | Rejected err =>
      Do (setError msg_failed)
      (Do (console_error (lit "Error generating reading:") err) finally)
  end.

Section generateReading.

(** [import.meta.env.VITE_OPENAI_API_KEY]: a string or [undefined]. *)
Variable VITE_OPENAI_API_KEY : option jsstring.

(** Lines 29-105.  The client constructor of line 51 does not throw
    on a non-empty key with [dangerouslyAllowBrowser] set, so the
    [try] block goes straight to the request. *)
Definition generateReading (s : State) : Async :=
  if negb (truthy (trim (question s))) then
    Do (setError msg_question) Return
  else
    let filledCards := filter (λ name, truthy (trim name)) (cardNames s) in
    if decide (length filledCards = 0%nat) then
      Do (setError msg_cards) Return
    else
      match VITE_OPENAI_API_KEY with
      | Some key =>
          if negb (truthy key) then Do (setError msg_apiKey) Return
          else
            Do (setIsLoading true)
            (Do (setError [])
            (let prompt := prompt_of (question s) filledCards in
             Await {| apiKey := key;
                      model := lit "gpt-4";
                      messages :=
                        [ {| role := lit "system"; content := system_content |};
                          {| role := lit "user"; content := prompt |} ];
                      max_tokens := 2000;
                      temperature_tenths := 7 |}
               on_settled))
      | None => Do (setError msg_apiKey) Return
      end.

(** ** The page as a transition system

    What the rendered form lets happen: typing in the question
    (line 132), one of the ten count buttons (lines 145-148), typing in
    one of the rendered card inputs (lines 165-173), the submit button
    unless disabled by [isLoading] (lines 190-192), and the settling of
    the request awaited longest. *)
Inductive Event :=
  | ChangeQuestion (q : jsstring)
  | ClickNumCards (num : Z)
  | ChangeCardName (index : nat) (name : jsstring)
  | ClickSubmit
  | Settle (outcome : Outcome).

(** A click on the submit button, on the page as rendered. *)
Definition submit (p : Page) : Page := exec (generateReading (ui p)) p.

(** The request awaited longest settles, and its [async] function
    runs on. *)
Definition settle (outcome : Outcome) (p : Page) : option Page :=
  match pending p with
  | k :: rest =>
      Some (exec (k outcome) (mkPage (ui p) (console p) (sent p) rest))
  | [] => None
  end.

Definition step (p : Page) (ev : Event) : option Page :=
  match ev with
  | ChangeQuestion q => Some (exec (Do (setQuestion q) Return) p)
  | ClickNumCards num =>
      if (1 <=? num) && (num <=? 10)
      then Some (exec (handleNumCardsChange (ui p) num) p)
      else None
  | ChangeCardName index name =>
      if decide (index < length (cardNames (ui p)))%nat
      then prog ← handleCardNameChange (ui p) index name; Some (exec prog p)
      else None
  | ClickSubmit =>
      if isLoading (ui p) then None
      else Some (submit p)
  | Settle outcome => settle outcome p
  end.

Fixpoint run (p : Page) (evs : list Event) : option Page :=
  match evs with
  | [] => Some p
  | ev :: evs' => p' ← step p ev; run p' evs'
  end.

Definition reachable (p : Page) : Prop :=
  ∃ evs, run initial_page evs = Some p.

End generateReading.

(** The cards that line 35 keeps, and the request of lines 81-95. *)
Definition filledCards_of (s : State) : list jsstring :=
  filter (λ name, truthy (trim name)) (cardNames s).

Definition chat_request (key prompt : jsstring) : Request :=
  {| apiKey := key;
     model := lit "gpt-4";
     messages := [ {| role := lit "system"; content := system_content |};
                   {| role := lit "user"; content := prompt |} ];
     max_tokens := 2000;
     temperature_tenths := 7 |}.

(** The page right after a submit that went through to the service. *)
Definition requested (key : jsstring) (p : Page) : Page :=
  mkPage (set_state (setError []) (set_state (setIsLoading true) (ui p)))
         (console p)
         (sent p ++ [chat_request key
                       (prompt_of (question (ui p)) (filledCards_of (ui p)))])
         (pending p ++ [on_settled]).

(** What holds of every page the form can be in: the names array is as
    long as the count says, and the loading flag is up exactly while the
    one request is awaited, with no error shown meanwhile. *)
Record page_ok (p : Page) : Prop := {
  ok_length : Z.of_nat (length (cardNames (ui p))) = numCards (ui p);
  ok_loading :
    (isLoading (ui p) = false ∧ pending p = [])
    ∨ (isLoading (ui p) = true ∧ pending p = [on_settled] ∧ error (ui p) = []);
}.

(** A page to try the handlers on: two names typed in, three cards. *)
Definition sample_page : Page :=
  {| ui := {| question := lit "What now?"; numCards := 3;
              cardNames := [lit "The Fool"; lit " "; lit "The Sun"];
              reading := []; isLoading := false; error := [] |};
     console := []; sent := []; pending := [] |}.

(** A page with the question left blank, and one with the cards blank. *)
Definition blank_question_page : Page :=
  {| ui := {| question := lit "  "; numCards := 1;
              cardNames := [lit "The Moon"];
              reading := []; isLoading := false; error := [] |};
     console := []; sent := []; pending := [] |}.

Definition blank_cards_page : Page :=
  {| ui := {| question := lit "Will it rain?"; numCards := 2;
              cardNames := [lit " "; []];
              reading := []; isLoading := false; error := [] |};
     console := []; sent := []; pending := [] |}.

(** The events that lead from the initial page to [sample_page]. *)
Definition sample_events : list Event :=
  [ ClickNumCards 3;
    ChangeCardName 0 (lit "The Fool");
    ChangeCardName 1 (lit " ");
    ChangeCardName 2 (lit "The Sun");
    ChangeQuestion (lit "What now?") ].

Definition sample_key : option jsstring := Some (lit "sk-sample").

(** A reading arrives, then the question is cleared and submitted. *)
Definition stale_reading_events : list Event :=
  sample_events
  ++ [ ClickSubmit;
       Settle (Resolved {| choices :=
         [ {| message := Some {| resp_content := Some (lit "A new start.") |} |} ] |});
       ChangeQuestion [];
       ClickSubmit ].

Definition sample_completion (text : option jsstring) : ChatCompletion :=
  {| choices := [ {| message := Some {| resp_content := text |} |} ] |}.

(** A completion with two choices that carry different texts. *)
Definition two_choices_completion : ChatCompletion :=
  {| choices :=
       [ {| message := Some {| resp_content := Some (lit "A new start.") |} |};
         {| message := Some {| resp_content := Some (lit "Wait and see.") |} |} ] |}.

(** A key that [!apiKey] of line 42 rejects: [undefined] or empty. *)
Definition key_missing (env : option jsstring) : Prop :=
  env = None ∨ env = Some [].

(** ** The rendered form (lines 107-232)

    What the JSX makes depend on the state: the value of the question
    box, the ten count buttons with the current one highlighted, one
    labelled input per card name, the error box, the submit button and
    the reading box.  Class names and the fixed texts of the layout are
    left out. *)
Record CountButton := { cb_num : Z; cb_selected : bool }.

Record CardInput := { ci_label : jsstring; ci_value : jsstring }.

Record View := {
  v_question : jsstring;
  v_count_buttons : list CountButton;
  v_card_inputs : list CardInput;
  v_error : option jsstring;
  v_submit_disabled : bool;
  v_submit_label : jsstring;
  v_reading : option jsstring;
}.

(** [{text && (<div>...{text}...</div>)}] of lines 183 and 210. *)
Definition shown_if_truthy (text : jsstring) : option jsstring :=
  if truthy text then Some text else None.

Definition render (s : State) : View :=
  {| v_question := question s;
     v_count_buttons :=
       (λ num, {| cb_num := num; cb_selected := bool_decide (numCards s = num) |})
         <$> ((λ i, Z.of_nat i + 1) <$> seq 0 10);
     v_card_inputs :=
       imap (λ index cardName,
               {| ci_label := lit "Card " ++ number_to_string (index + 1);
                  ci_value := cardName |})
            (cardNames s);
     v_error := shown_if_truthy (error s);
     v_submit_disabled := isLoading s;
     v_submit_label :=
       if isLoading s then lit "Brewing Magic..." else lit "Brew Some Magic";
     v_reading := shown_if_truthy (reading s) |}.

(** The user events a view offers: typing in the question, a click on
    one of the count buttons shown, typing in one of the card inputs
    shown, a click on the submit button unless disabled. *)
Definition offers (v : View) (ev : Event) : bool :=
  match ev with
  | ChangeQuestion _ => true
  | ClickNumCards num => bool_decide (num ∈ cb_num <$> v_count_buttons v)
  | ChangeCardName index _ => bool_decide (index < length (v_card_inputs v))%nat
  | ClickSubmit => negb (v_submit_disabled v)
  | Settle _ => false
  end.

(** Typing [name] into card input [index], on the page as rendered. *)
Definition change_name (index : nat) (name : jsstring) (p : Page)
  : option Page :=
  prog ← handleCardNameChange (ui p) index name; Some (exec prog p).

(** A click on count button [num], on the page as rendered. *)
Definition click_count (num : Z) (p : Page) : Page :=
  exec (handleNumCardsChange (ui p) num) p.

(** What else holds of every page the form can be in, given the key
    of the build: the count is one of the buttons, the console holds
    only logged service failures, and every request sent carries the
    key and the fixed parameters. *)
Record page_sound (env : option jsstring) (p : Page) : Prop := {
  snd_count : 1 ≤ numCards (ui p) ≤ 10;
  snd_console :
    Forall (λ entry, ∃ err, entry = Logged (lit "Error generating reading:") err)
           (console p);
  snd_sent :
    Forall (λ req, ∃ key prompt,
              env = Some key ∧ key ≠ [] ∧ req = chat_request key prompt)
           (sent p);
}.

(** A page with a reading shown and a request awaited again. *)
Definition resubmit_events : list Event :=
  sample_events
  ++ [ ClickSubmit;
       Settle (Rejected (lit "timeout"));
       ClickSubmit;
       Settle (Resolved {| choices :=
         [ {| message := Some {| resp_content := Some (lit "A new start.") |} |} ] |});
       ClickNumCards 2;
       ClickSubmit ].

(** * Properties *)

(** ** Strings *)

Lemma truthy_false s : truthy s = false ↔ s = [].
Proof. destruct s; simpl; split; congruence. Qed.

Lemma truthy_true s : truthy s = true ↔ s ≠ [].
Proof. destruct s; simpl; split; congruence. Qed.

Lemma or_else_same (a : option jsstring) : or_else a [] = default [] a.
Proof. destruct a as [[|c s]|]; reflexivity. Qed.

Lemma trimStart_nil s : trimStart s = [] ↔ Forall is_whitespace s.
Proof.
  induction s as [|c s IH]; simpl.
  - split; [constructor | reflexivity].
  - destruct (is_whitespace c) eqn:Hc.
    + rewrite IH. split.
      * intros H. constructor; [by rewrite Hc | exact H].
      * by inversion 1.
    + split; [discriminate |].
      inversion 1 as [|? ? Hw]. by rewrite Hc in Hw.
Qed.

Lemma trimStart_whitespace s :
  Forall is_whitespace (trimStart s) ↔ Forall is_whitespace s.
Proof.
  induction s as [|c s IH]; simpl; [reflexivity |].
  destruct (is_whitespace c) eqn:Hc; [| reflexivity].
  rewrite IH. split.
  - intros H. constructor; [by rewrite Hc | exact H].
  - by inversion 1.
Qed.

(** The trimmed string is empty exactly when the string holds white
    space only. *)
Lemma trim_nil s : trim s = [] ↔ Forall is_whitespace s.
Proof.
  unfold trim, trimEnd.
  rewrite <- (trimStart_whitespace s), <- Forall_reverse, <- trimStart_nil.
  split; intros H.
  - by rewrite <- (reverse_involutive (trimStart _)), H.
  - by rewrite H.
Qed.






(** ** Execution of the handlers *)

Lemma Array_fill_ok {A} (num : Z) (x : A) :
  0 ≤ num < 2 ^ 32 → Array_fill num x = Some (replicate (Z.to_nat num) x).
Proof.
  intros [H0 H1]. unfold Array_fill.
  destruct (Z.leb_spec 0 num); [| lia].
  destruct (Z.ltb_spec num (2 ^ 32)); [reflexivity | lia].
Qed.

Lemma handleNumCardsChange_exec s p num :
  0 ≤ num < 2 ^ 32 →
  exec (handleNumCardsChange s num) p
  = perform (setCardNames (resized (cardNames s) num))
            (perform (setNumCards num) p).
Proof.
  intros H. unfold handleNumCardsChange. by rewrite Array_fill_ok.
Qed.

Lemma resized_length names num : length (resized names num) = Z.to_nat num.
Proof. unfold resized. by rewrite length_imap, length_replicate. Qed.

Lemma resized_lookup names num i :
  (i < Z.to_nat num)%nat → resized names num !! i = Some (default [] (names !! i)).
Proof.
  intros H. unfold resized.
  rewrite list_lookup_imap, lookup_replicate_2 by exact H.
  simpl. by rewrite or_else_same.
Qed.

Lemma array_set_in_range {A} (a : list A) index x :
  (index < length a)%nat → array_set a index x = Some (<[index := x]> a).
Proof. intros H. unfold array_set. by rewrite decide_True. Qed.

(** ** The four ways through [generateReading] *)

Lemma filledCards_nil (names : list jsstring) :
  length (filter (λ name, truthy (trim name)) names) = 0%nat
  ↔ Forall (λ name, trim name = []) names.
Proof.
  induction names as [|name names IH]; [by split; [constructor |] |].
  destruct (truthy (trim name)) eqn:Hn.
  - rewrite filter_cons_True by (by rewrite Hn). split; [discriminate |].
    inversion 1 as [|? ? Hblank]. by rewrite Hblank in Hn.
  - rewrite filter_cons_False by (cbv beta; rewrite Hn; exact id). rewrite IH.
    apply truthy_false in Hn. split.
    + intros H. by constructor.
    + by inversion 1.
Qed.


Lemma some_card_filled (names : list jsstring) :
  Exists (λ name, trim name ≠ []) names →
  ¬ Forall (λ name, trim name = []) names.
Proof.
  rewrite Exists_exists, Forall_forall.
  intros (name & Hin & Hne) Hall. by apply Hne, Hall.
Qed.

Lemma submit_blank_question env p :
  trim (question (ui p)) = [] →
  submit env p = perform (setError msg_question) p.
Proof.
  intros Hq. unfold submit, generateReading. by rewrite Hq.
Qed.

Lemma submit_blank_cards env p :
  trim (question (ui p)) ≠ [] →
  Forall (λ name, trim name = []) (cardNames (ui p)) →
  submit env p = perform (setError msg_cards) p.
Proof.
  intros Hq Hc. unfold submit, generateReading.
  apply truthy_true in Hq. rewrite Hq. simpl.
  apply filledCards_nil in Hc. by rewrite decide_True.
Qed.

Lemma submit_key_missing env p :
  trim (question (ui p)) ≠ [] →
  ¬ Forall (λ name, trim name = []) (cardNames (ui p)) →
  key_missing env →
  submit env p = perform (setError msg_apiKey) p.
Proof.
  intros Hq Hc Hk. unfold submit, generateReading.
  apply truthy_true in Hq. rewrite Hq. simpl.
  rewrite <- filledCards_nil in Hc. rewrite decide_False by exact Hc.
  by destruct Hk as [-> | ->].
Qed.

Lemma submit_requested env key p :
  trim (question (ui p)) ≠ [] →
  ¬ Forall (λ name, trim name = []) (cardNames (ui p)) →
  env = Some key → key ≠ [] →
  submit env p = requested key p.
Proof.
  intros Hq Hc -> Hk. unfold submit, generateReading.
  apply truthy_true in Hq. rewrite Hq. simpl.
  rewrite <- filledCards_nil in Hc. rewrite decide_False by exact Hc.
  apply truthy_true in Hk. by rewrite Hk.
Qed.

(** Every submit ends in one of the two shapes. *)
Lemma submit_shape env p :
  (∃ msg, msg ≠ [] ∧ submit env p = perform (setError msg) p)
  ∨ (∃ key, submit env p = requested key p).
Proof.
  destruct (decide (trim (question (ui p)) = [])) as [Hq | Hq].
  { left. exists msg_question. split; [done |]. by apply submit_blank_question. }
  destruct (decide (Forall (λ name, trim name = []) (cardNames (ui p))))
    as [Hc | Hc].
  { left. exists msg_cards. split; [done |]. by apply submit_blank_cards. }
  destruct env as [[|c key]|].
  - left. exists msg_apiKey. split; [done |].
    apply submit_key_missing; [done | done | by right].
  - right. exists (c :: key). by apply submit_requested.
  - left. exists msg_apiKey. split; [done |].
    apply submit_key_missing; [done | done | by left].
Qed.

(** ** Resizing the names (lines 17-21) *)

(** C3: for every n in [1,10] and every current card-name sequence,
    after setCardCount(n) the sequence has exactly n elements, each
    index below min(n, old length) holds the prior entry, and each index
    from the old length up to n-1 holds the empty string. *)
Theorem setCardCount_resizes (p : Page) (n : Z) :
  1 ≤ n ≤ 10 →
  let p' := exec (handleNumCardsChange (ui p) n) p in
  numCards (ui p') = n
  ∧ Z.of_nat (length (cardNames (ui p'))) = n
  ∧ (∀ i, (i < Z.to_nat n `min` length (cardNames (ui p)))%nat →
          cardNames (ui p') !! i = cardNames (ui p) !! i)
  ∧ (∀ i, (length (cardNames (ui p)) ≤ i < Z.to_nat n)%nat →
          cardNames (ui p') !! i = Some []).
Proof.
  intros Hn p'. subst p'.
  rewrite handleNumCardsChange_exec by lia. simpl.
  split; [reflexivity |]. split; [rewrite resized_length; lia |]. split.
  - intros i Hi. rewrite resized_lookup by lia.
    destruct (lookup_lt_is_Some_2 (cardNames (ui p)) i) as [name Hname]; [lia |].
    by rewrite Hname.
  - intros i Hi. rewrite resized_lookup by lia.
    by rewrite (proj2 (lookup_ge_None _ _)) by lia.
Qed.

Lemma setCardCount_resizes_witness :
  1 ≤ 5 ≤ 10
  ∧ let p' := exec (handleNumCardsChange (ui sample_page) 5) sample_page in
    numCards (ui p') = 5
    ∧ Z.of_nat (length (cardNames (ui p'))) = 5
    ∧ (∀ i, (i < Z.to_nat 5 `min` length (cardNames (ui sample_page)))%nat →
            cardNames (ui p') !! i = cardNames (ui sample_page) !! i)
    ∧ (∀ i, (length (cardNames (ui sample_page)) ≤ i < Z.to_nat 5)%nat →
            cardNames (ui p') !! i = Some []).
Proof. split; [lia | apply (setCardCount_resizes sample_page 5); lia]. Defined.

(** ** The invariant of the page *)

Lemma run_preserves env (P : Page → Prop) :
  (∀ p ev p', P p → step env p ev = Some p' → P p') →
  ∀ evs p p', P p → run env p evs = Some p' → P p'.
Proof.
  intros Hstep. induction evs as [|ev evs IH]; simpl; intros p p' HP Hrun.
  - by injection Hrun as <-.
  - destruct (step env p ev) as [p1|] eqn:Hev; [| discriminate].
    simpl in Hrun. eauto.
Qed.

Lemma initial_page_ok : page_ok initial_page.
Proof. split; [reflexivity | by left]. Qed.

Lemma settle_on_settled outcome p rest :
  pending p = on_settled :: rest →
  settle outcome p
  = Some (exec (on_settled outcome) (mkPage (ui p) (console p) (sent p) rest)).
Proof. intros H. unfold settle. by rewrite H. Qed.

Lemma step_page_ok env p ev p' :
  page_ok p → step env p ev = Some p' → page_ok p'.
Proof.
  intros [Hlen Hload] Hstep. destruct ev as [q | num | index name | | outcome];
    unfold step in Hstep.
  - injection Hstep as <-. by split.
  - destruct (Z.leb_spec 1 num); [| discriminate].
    destruct (Z.leb_spec num 10); [| discriminate].
    assert (p' = exec (handleNumCardsChange (ui p) num) p) as ->
      by (cbn [andb] in Hstep; congruence).
    rewrite handleNumCardsChange_exec by lia.
    split; [simpl; rewrite resized_length; lia | exact Hload].
  - destruct (decide (index < length (cardNames (ui p)))%nat) as [Hi|];
      [| discriminate].
    unfold handleCardNameChange in Hstep.
    rewrite array_set_in_range in Hstep by exact Hi.
    injection Hstep as <-. split; [simpl; by rewrite length_insert | exact Hload].
  - destruct (isLoading (ui p)) eqn:Hl; [discriminate |].
    injection Hstep as <-.
    destruct Hload as [[_ Hp] | [Ht _]]; [| congruence].
    destruct (submit_shape env p) as [(msg & _ & ->) | (key & ->)].
    + split; [exact Hlen | left; by rewrite <- Hl].
    + split; [exact Hlen | right; simpl; by rewrite Hp].
  - destruct Hload as [[_ Hp] | (_ & Hp & _)].
    + unfold settle in Hstep. by rewrite Hp in Hstep.
    + rewrite (settle_on_settled _ _ _ Hp) in Hstep. injection Hstep as <-.
      destruct outcome; (split; [exact Hlen | by left]).
Qed.

Lemma reachable_page_ok env p : reachable env p → page_ok p.
Proof.
  intros [evs Hrun].
  exact (run_preserves env page_ok (step_page_ok env) evs _ _ initial_page_ok Hrun).
Qed.

(** C4: in the initial state and after every operation (a count in
    [1,10], a name at a valid index, a submit and its completion) the
    length of the card-name sequence equals the card count. *)
Theorem cardNames_length_is_numCards env (p : Page) :
  reachable env p →
  Z.of_nat (length (cardNames (ui p))) = numCards (ui p).
Proof. intros H. by destruct (reachable_page_ok env p H). Qed.

Lemma cardNames_length_is_numCards_witness :
  reachable sample_key sample_page
  ∧ Z.of_nat (length (cardNames (ui sample_page))) = numCards (ui sample_page).
Proof.
  split.
  - exists sample_events. reflexivity.
  - apply (cardNames_length_is_numCards sample_key sample_page).
    exists sample_events. reflexivity.
Defined.

(** ** Validation and configuration (lines 30-45) *)

(** C5: for every state in which the question is empty after trimming,
    or the question is not but every card name is, submit() sets a
    validation error message and issues no network request. *)
Theorem submit_validation_error env (p : Page) :
  trim (question (ui p)) = []
  ∨ (trim (question (ui p)) ≠ []
     ∧ Forall (λ name, trim name = []) (cardNames (ui p))) →
  ∃ msg, (msg = msg_question ∨ msg = msg_cards)
    ∧ msg ≠ []
    ∧ error (ui (submit env p)) = msg
    ∧ sent (submit env p) = sent p
    ∧ pending (submit env p) = pending p.
Proof.
  intros [Hq | [Hq Hc]].
  - exists msg_question. rewrite submit_blank_question by exact Hq.
    repeat split; [by left | done].
  - exists msg_cards. rewrite submit_blank_cards by done.
    repeat split; [by right | done].
Qed.

Lemma submit_validation_error_witness :
  (trim (question (ui blank_cards_page)) ≠ []
   ∧ Forall (λ name, trim name = []) (cardNames (ui blank_cards_page)))
  ∧ ∃ msg, (msg = msg_question ∨ msg = msg_cards)
      ∧ msg ≠ []
      ∧ error (ui (submit sample_key blank_cards_page)) = msg
      ∧ sent (submit sample_key blank_cards_page) = sent blank_cards_page
      ∧ pending (submit sample_key blank_cards_page) = pending blank_cards_page.
Proof.
  assert (trim (question (ui blank_cards_page)) ≠ []
          ∧ Forall (λ name, trim name = []) (cardNames (ui blank_cards_page)))
    as H by (split; [discriminate | repeat constructor]).
  split; [exact H |].
  apply (submit_validation_error sample_key blank_cards_page). right. exact H.
Defined.

(** C7: for every state passing field validation but with the API key
    absent, submit() sets a user-visible configuration error and issues
    no network request. *)
Theorem submit_configuration_error env (p : Page) :
  trim (question (ui p)) ≠ [] →
  Exists (λ name, trim name ≠ []) (cardNames (ui p)) →
  key_missing env →
  error (ui (submit env p)) = msg_apiKey
  ∧ msg_apiKey ≠ []
  ∧ sent (submit env p) = sent p
  ∧ pending (submit env p) = pending p.
Proof.
  intros Hq Hc Hk.
  rewrite submit_key_missing by auto using some_card_filled. done.
Qed.

Lemma submit_configuration_error_witness :
  trim (question (ui sample_page)) ≠ []
  ∧ Exists (λ name, trim name ≠ []) (cardNames (ui sample_page))
  ∧ key_missing None
  ∧ error (ui (submit None sample_page)) = msg_apiKey
  ∧ sent (submit None sample_page) = sent sample_page.
Proof.
  assert (trim (question (ui sample_page)) ≠ []) as Hq by discriminate.
  assert (Exists (λ name, trim name ≠ []) (cardNames (ui sample_page))) as Hc
    by (apply Exists_cons_hd; discriminate).
  assert (key_missing None) as Hk by (by left).
  destruct (submit_configuration_error None sample_page Hq Hc Hk)
    as (He & _ & Hs & _).
  auto.
Defined.

(** C10: submit() checks its failure conditions in a fixed order (blank
    question, then all card names blank, then missing API key) and sets
    only the first applicable error message; in particular a blank
    question with a missing key reports the question error, not the
    configuration error. *)
Theorem submit_checks_in_order env (s : State) :
  (trim (question s) = [] →
     generateReading env s = Do (setError msg_question) Return)
  ∧ (trim (question s) ≠ [] →
     Forall (λ name, trim name = []) (cardNames s) →
     generateReading env s = Do (setError msg_cards) Return)
  ∧ (trim (question s) ≠ [] →
     Exists (λ name, trim name ≠ []) (cardNames s) →
     key_missing env →
     generateReading env s = Do (setError msg_apiKey) Return)
  ∧ msg_question ≠ msg_cards ∧ msg_question ≠ msg_apiKey
  ∧ msg_cards ≠ msg_apiKey.
Proof.
  unfold generateReading. repeat split; try discriminate.
  - intros Hq. by rewrite Hq.
  - intros Hq%truthy_true Hc%filledCards_nil. rewrite Hq. simpl.
    by rewrite decide_True.
  - intros Hq%truthy_true Hc%some_card_filled Hk. rewrite Hq. simpl.
    rewrite <- filledCards_nil in Hc. rewrite decide_False by exact Hc.
    by destruct Hk as [-> | ->].
Qed.

Lemma submit_checks_in_order_witness :
  generateReading None (ui blank_question_page) = Do (setError msg_question) Return
  ∧ generateReading None (ui blank_cards_page) = Do (setError msg_cards) Return
  ∧ generateReading None (ui sample_page) = Do (setError msg_apiKey) Return.
Proof.
  split; [| split].
  - apply (submit_checks_in_order None (ui blank_question_page)). reflexivity.
  - apply (submit_checks_in_order None (ui blank_cards_page));
      [discriminate | repeat constructor].
  - apply (submit_checks_in_order None (ui sample_page));
      [discriminate | apply Exists_cons_hd; discriminate | by left].
Defined.

(** ** The request (lines 47-95) *)








(** ** The response (lines 96-104) *)

Lemma readingText_text completion text :
  first_content completion = Some text → text ≠ [] →
  readingText completion = text.
Proof.
  intros Hc Ht. unfold readingText. rewrite Hc. simpl.
  apply truthy_true in Ht. by rewrite Ht.
Qed.

Lemma readingText_fallback completion :
  first_content completion = None ∨ first_content completion = Some [] →
  readingText completion = msg_fallback.
Proof. intros [Hc | Hc]; unfold readingText; by rewrite Hc. Qed.

Lemma readingText_not_nil completion : readingText completion ≠ [].
Proof.
  unfold readingText, or_else.
  destruct (first_content completion) as [[|c text]|]; done.
Qed.

(** The submit of a page with nothing awaited leaves its own
    continuation as the one to settle. *)
Lemma submit_pending env key p :
  trim (question (ui p)) ≠ [] →
  Exists (λ name, trim name ≠ []) (cardNames (ui p)) →
  env = Some key → key ≠ [] → pending p = [] →
  pending (submit env p) = [on_settled].
Proof.
  intros Hq Hc Henv Hkey Hp.
  rewrite (submit_requested env key) by auto using some_card_filled.
  simpl. by rewrite Hp.
Qed.

Lemma first_content_choice completion choice rest :
  choices completion = choice :: rest →
  first_content completion = (msg ← message choice; resp_content msg).
Proof. intros H. unfold first_content. by rewrite H. Qed.

(** C2: for every service response, if it carries non-empty text T,
    that is, the content of the message of its first choice is T, then
    after submit() completes the stored reading equals T exactly; if
    that content is empty or missing (no choice at all, a first choice
    without message, a message whose content is null or the empty
    string), the stored reading is the fixed fallback placeholder.
    [p1] is the page at the time of the response: any page that still
    awaits the request of this submit. *)
Theorem reading_is_response_text env key (p p1 : Page) completion :
  trim (question (ui p)) ≠ [] →
  Exists (λ name, trim name ≠ []) (cardNames (ui p)) →
  env = Some key → key ≠ [] → pending p = [] →
  pending p1 = pending (submit env p) →
  ∃ p2, settle (Resolved completion) p1 = Some p2
    ∧ (∀ choice rest msg text,
         choices completion = choice :: rest →
         message choice = Some msg →
         resp_content msg = Some text → text ≠ [] →
         reading (ui p2) = text)
    ∧ (choices completion = [] → reading (ui p2) = msg_fallback)
    ∧ (∀ choice rest,
         choices completion = choice :: rest →
         message choice = None →
         reading (ui p2) = msg_fallback)
    ∧ (∀ choice rest msg,
         choices completion = choice :: rest →
         message choice = Some msg →
         resp_content msg = None ∨ resp_content msg = Some [] →
         reading (ui p2) = msg_fallback).
Proof.
  intros Hq Hc Henv Hkey Hp Hp1.
  rewrite (submit_pending env key) in Hp1 by assumption.
  eexists. split; [by apply settle_on_settled |]. simpl.
  split; [| split; [| split]].
  - intros choice rest msg text Hch Hmsg Htext Hne.
    apply readingText_text; [| exact Hne].
    by rewrite (first_content_choice _ _ _ Hch), Hmsg.
  - intros Hch. apply readingText_fallback. left.
    unfold first_content. by rewrite Hch.
  - intros choice rest Hch Hmsg. apply readingText_fallback. left.
    by rewrite (first_content_choice _ _ _ Hch), Hmsg.
  - intros choice rest msg Hch Hmsg Htext. apply readingText_fallback.
    rewrite (first_content_choice _ _ _ Hch), Hmsg. simpl.
    destruct Htext as [-> | ->]; [by left | by right].
Qed.

Lemma reading_is_response_text_witness :
  trim (question (ui sample_page)) ≠ []
  ∧ Exists (λ name, trim name ≠ []) (cardNames (ui sample_page))
  ∧ lit "sk-sample" ≠ []
  ∧ pending sample_page = []
  ∧ ∃ p2, settle (Resolved two_choices_completion)
                 (submit sample_key sample_page) = Some p2
      ∧ reading (ui p2) = lit "A new start.".
Proof.
  assert (trim (question (ui sample_page)) ≠ []) as Hq by discriminate.
  assert (Exists (λ name, trim name ≠ []) (cardNames (ui sample_page))) as Hc
    by (apply Exists_cons_hd; discriminate).
  assert (lit "sk-sample" ≠ []) as Hk by discriminate.
  repeat (split; [assumption || reflexivity |]).
  destruct (reading_is_response_text sample_key (lit "sk-sample") sample_page
              (submit sample_key sample_page) two_choices_completion
              Hq Hc eq_refl Hk eq_refl eq_refl) as (p2 & Hs & Ht & _).
  exists p2. split; [exact Hs |].
  eapply Ht; [reflexivity | reflexivity | reflexivity | discriminate].
Defined.

(** C6: for every run of submit() in which the request fails, after
    completion the error message is the generic service-failure message,
    the loading flag is false, and the reading keeps its prior value. *)
Theorem failure_sets_error env key (p p1 : Page) err :
  trim (question (ui p)) ≠ [] →
  Exists (λ name, trim name ≠ []) (cardNames (ui p)) →
  env = Some key → key ≠ [] → pending p = [] →
  pending p1 = pending (submit env p) →
  reading (ui (submit env p)) = reading (ui p)
  ∧ ∃ p2, settle (Rejected err) p1 = Some p2
      ∧ error (ui p2) = msg_failed
      ∧ msg_failed ≠ []
      ∧ isLoading (ui p2) = false
      ∧ reading (ui p2) = reading (ui p1)
      ∧ console p2 = console p1 ++ [Logged (lit "Error generating reading:") err].
Proof.
  intros Hq Hc Henv Hkey Hp Hp1.
  rewrite (submit_pending env key) in Hp1 by assumption.
  split.
  - by rewrite (submit_requested env key) by auto using some_card_filled.
  - eexists. split; [by apply settle_on_settled |]. done.
Qed.

Lemma failure_sets_error_witness :
  trim (question (ui sample_page)) ≠ []
  ∧ Exists (λ name, trim name ≠ []) (cardNames (ui sample_page))
  ∧ lit "sk-sample" ≠ []
  ∧ pending sample_page = []
  ∧ ∃ p2, settle (Rejected (lit "429")) (submit sample_key sample_page) = Some p2
      ∧ error (ui p2) = msg_failed
      ∧ isLoading (ui p2) = false
      ∧ reading (ui p2) = [].
Proof.
  assert (trim (question (ui sample_page)) ≠ []) as Hq by discriminate.
  assert (Exists (λ name, trim name ≠ []) (cardNames (ui sample_page))) as Hc
    by (apply Exists_cons_hd; discriminate).
  assert (lit "sk-sample" ≠ []) as Hk by discriminate.
  repeat (split; [assumption || reflexivity |]).
  destruct (failure_sets_error sample_key (lit "sk-sample") sample_page
              (submit sample_key sample_page) (lit "429")
              Hq Hc eq_refl Hk eq_refl eq_refl)
    as (_ & p2 & Hs & He & _ & Hl & Hr & _).
  exists p2. auto.
Defined.

(** ** The loading flag (lines 47 and 102-104) *)

Lemma generateReading_request env key s :
  trim (question s) ≠ [] →
  Exists (λ name, trim name ≠ []) (cardNames s) →
  env = Some key → key ≠ [] →
  generateReading env s
  = Do (setIsLoading true)
       (Do (setError [])
           (Await (chat_request key (prompt_of (question s) (filledCards_of s)))
                  on_settled)).
Proof.
  intros Hq%truthy_true Hc%some_card_filled -> Hk%truthy_true.
  unfold generateReading. rewrite Hq. simpl.
  rewrite <- filledCards_nil in Hc. rewrite decide_False by exact Hc.
  by rewrite Hk.
Qed.

Lemma requested_sent key p : sent (requested key p) ≠ sent p.
Proof.
  simpl. intros H. apply (f_equal length) in H.
  rewrite length_app in H. simpl in H. lia.
Qed.

Lemma step_raises_flag env p ev p' :
  page_ok p → step env p ev = Some p' →
  isLoading (ui p) = false → isLoading (ui p') = true →
  ev = ClickSubmit ∧ ∃ req, sent p' = sent p ++ [req].
Proof.
  intros [_ Hload] Hstep Hf Ht.
  destruct ev as [q | num | index name | | outcome]; unfold step in Hstep.
  - injection Hstep as <-. simpl in Ht. congruence.
  - destruct ((1 <=? num) && (num <=? 10)); [| discriminate].
    assert (isLoading (ui p') = isLoading (ui p)) as Heq; [| congruence].
    injection Hstep as <-. unfold handleNumCardsChange.
    by destruct (Array_fill num []).
  - destruct (decide (index < length (cardNames (ui p)))%nat) as [Hi|];
      [| discriminate].
    unfold handleCardNameChange in Hstep.
    rewrite array_set_in_range in Hstep by exact Hi.
    injection Hstep as <-. simpl in Ht. congruence.
  - split; [reflexivity |]. rewrite Hf in Hstep. injection Hstep as <-.
    destruct (submit_shape env p) as [(msg & _ & Hs) | (key & Hs)];
      rewrite Hs in *; simpl in Ht; [congruence | by eexists].
  - destruct Hload as [[_ Hp] | [Hl _]]; [| congruence].
    unfold settle in Hstep. by rewrite Hp in Hstep.
Qed.

(** C9: the loading flag is true only while the network call is
    outstanding: false initially, left as it is by every submit() that
    issues no request, set true only right before the request is issued
    (and by no other event), and false again once submit() completes,
    whether the call succeeded or failed. *)
Theorem isLoading_only_while_awaiting env :
  isLoading initial_state = false
  ∧ (∀ p, sent (submit env p) = sent p →
          isLoading (ui (submit env p)) = isLoading (ui p))
  ∧ (∀ p, sent (submit env p) ≠ sent p →
          isLoading (ui (submit env p)) = true
          ∧ ∃ req k, generateReading env (ui p)
                     = Do (setIsLoading true) (Do (setError []) (Await req k)))
  ∧ (∀ p, reachable env p → (isLoading (ui p) = true ↔ pending p ≠ []))
  ∧ (∀ p ev p', reachable env p → step env p ev = Some p' →
        isLoading (ui p) = false → isLoading (ui p') = true →
        ev = ClickSubmit ∧ ∃ req, sent p' = sent p ++ [req])
  ∧ (∀ p outcome p', reachable env p → settle outcome p = Some p' →
        isLoading (ui p') = false ∧ pending p' = []).
Proof.
  split; [reflexivity |]. split; [| split; [| split; [| split]]].
  - intros p Hs.
    destruct (submit_shape env p) as [(msg & _ & ->) | (key & Hr)];
      [reflexivity |].
    rewrite Hr in Hs. by apply requested_sent in Hs.
  - intros p Hs.
    destruct (decide (trim (question (ui p)) = [])) as [Hq | Hq].
    { by rewrite submit_blank_question in Hs. }
    destruct (decide (Forall (λ name, trim name = []) (cardNames (ui p))))
      as [Hc | Hc%not_Forall_Exists]; [| | apply _].
    { by rewrite submit_blank_cards in Hs. }
    destruct env as [[|c key]|].
    + rewrite submit_key_missing in Hs;
        [done | done | by apply some_card_filled | by right].
    + unfold submit.
      rewrite (generateReading_request _ (c :: key)) by done.
      split; [reflexivity | by eexists _, _].
    + rewrite submit_key_missing in Hs;
        [done | done | by apply some_card_filled | by left].
  - intros p [_ Hload]%reachable_page_ok.
    destruct Hload as [[Hl Hp] | (Hl & Hp & _)]; rewrite Hl, Hp; split; done.
  - intros p ev p' Hp%reachable_page_ok. by apply step_raises_flag.
  - intros p outcome p' [_ Hload]%reachable_page_ok Hs.
    destruct Hload as [[_ Hp] | (_ & Hp & _)].
    + unfold settle in Hs. by rewrite Hp in Hs.
    + rewrite (settle_on_settled _ _ _ Hp) in Hs. injection Hs as <-.
      by destruct outcome.
Qed.

Lemma isLoading_only_while_awaiting_witness :
  isLoading (ui (submit sample_key sample_page)) = true
  ∧ isLoading (ui (submit None sample_page)) = false
  ∧ ∀ outcome,
      ∃ p', settle outcome (submit sample_key sample_page) = Some p'
            ∧ isLoading (ui p') = false.
Proof.
  destruct (isLoading_only_while_awaiting sample_key)
    as (_ & _ & Hup & _ & _ & Hdown).
  destruct (isLoading_only_while_awaiting None) as (_ & Hkeep & _).
  split; [| split].
  - apply (Hup sample_page). discriminate.
  - apply (Hkeep sample_page). reflexivity.
  - intros outcome. eexists. split; [reflexivity |].
    apply (Hdown (submit sample_key sample_page) outcome).
    + exists (sample_events ++ [ClickSubmit]). reflexivity.
    + reflexivity.
Defined.

(** ** Reading and error (lines 13-15, 31-48, 98, 100) *)

(** C8, as stated, fails: once a reading is shown, a submit with the
    question cleared sets the error and keeps the reading. *)
Lemma reading_and_error_not_exclusive :
  ¬ (reading initial_state = [] ∧ error initial_state = []
     ∧ ∀ p, reachable sample_key p →
            reading (ui p) = [] ∨ error (ui p) = []).
Proof.
  intros (_ & _ & H).
  destruct (H (exec (Do (setError msg_question) Return)
                 (exec (Do (setQuestion []) Return)
                    (exec (on_settled (Resolved (sample_completion
                                                   (Some (lit "A new start.")))))
                       (mkPage (ui (submit sample_key sample_page))
                               [] (sent (submit sample_key sample_page)) [])))))
    as [Hr | He].
  - exists stale_reading_events. reflexivity.
  - discriminate Hr.
  - discriminate He.
Qed.

(** C8, amended: in the initial state the reading and the error message
    are both empty; while a request is outstanding the error message is
    empty; when a response is stored as the reading, the reading is
    non-empty and the error message is empty; and no other event changes
    the reading (nothing ever clears it). *)
Theorem reading_and_error env :
  reading initial_state = [] ∧ error initial_state = []
  ∧ (∀ p, reachable env p → isLoading (ui p) = true → error (ui p) = [])
  ∧ (∀ p completion p', reachable env p →
        settle (Resolved completion) p = Some p' →
        reading (ui p') = readingText completion
        ∧ reading (ui p') ≠ [] ∧ error (ui p') = [])
  ∧ (∀ p ev p', reachable env p → step env p ev = Some p' →
        (∀ completion, ev ≠ Settle (Resolved completion)) →
        reading (ui p') = reading (ui p)).
Proof.
  split; [reflexivity |]. split; [reflexivity |]. split; [| split].
  - intros p [_ Hload]%reachable_page_ok Hl.
    destruct Hload as [[Hf _] | (_ & _ & He)]; congruence.
  - intros p completion p' [_ Hload]%reachable_page_ok Hs.
    destruct Hload as [[_ Hp] | (_ & Hp & He)].
    + unfold settle in Hs. by rewrite Hp in Hs.
    + rewrite (settle_on_settled _ _ _ Hp) in Hs. injection Hs as <-. simpl.
      split; [reflexivity |]. split; [apply readingText_not_nil | exact He].
  - intros p ev p' [_ Hload]%reachable_page_ok Hstep Hev.
    destruct ev as [q | num | index name | | outcome]; unfold step in Hstep.
    + by injection Hstep as <-.
    + destruct ((1 <=? num) && (num <=? 10)); [| discriminate].
      injection Hstep as <-. unfold handleNumCardsChange.
      by destruct (Array_fill num []).
    + destruct (decide (index < length (cardNames (ui p)))%nat) as [Hi|];
        [| discriminate].
      unfold handleCardNameChange in Hstep.
      rewrite array_set_in_range in Hstep by exact Hi.
      by injection Hstep as <-.
    + destruct (isLoading (ui p)); [discriminate |]. injection Hstep as <-.
      by destruct (submit_shape env p) as [(msg & _ & ->) | (key & ->)].
    + destruct outcome as [completion | err]; [by destruct (Hev completion) |].
      destruct Hload as [[_ Hp] | (_ & Hp & _)].
      * unfold settle in Hstep. by rewrite Hp in Hstep.
      * rewrite (settle_on_settled _ _ _ Hp) in Hstep. by injection Hstep as <-.
Qed.

Lemma reading_and_error_witness :
  reachable sample_key (submit sample_key sample_page)
  ∧ error (ui (submit sample_key sample_page)) = []
  ∧ ∃ p', settle (Resolved (sample_completion None))
                 (submit sample_key sample_page) = Some p'
          ∧ reading (ui p') = msg_fallback ∧ error (ui p') = [].
Proof.
  assert (reachable sample_key (submit sample_key sample_page)) as Hr
    by (exists (sample_events ++ [ClickSubmit]); reflexivity).
  destruct (reading_and_error sample_key) as (_ & _ & Hload & Hres & _).
  split; [exact Hr |]. split; [by apply Hload |].
  eexists. split; [reflexivity |].
  destruct (Hres (submit sample_key sample_page) (sample_completion None) _
              Hr eq_refl) as (Ht & _ & He).
  split; [exact Ht | exact He].
Defined.

(** * Further properties of the handlers *)

(** ** Editing a card name (lines 23-27) *)

Lemma change_name_in_range index name p :
  (index < length (cardNames (ui p)))%nat →
  change_name index name p
  = Some (perform (setCardNames (<[index := name]> (cardNames (ui p)))) p).
Proof.
  intros Hi. unfold change_name, handleCardNameChange.
  by rewrite array_set_in_range.
Qed.

Lemma perform_id_cardNames p :
  perform (setCardNames (cardNames (ui p))) p = p.
Proof. by destruct p as [[] ? ? ?]. Qed.

(** X1: typing into a rendered card input replaces that entry and
    nothing else: the array keeps its length, the other names, the
    question, the count, the reading, the flags, and nothing is sent. *)
Theorem setCardName_updates (p : Page) index name :
  (index < length (cardNames (ui p)))%nat →
  ∃ p', change_name index name p = Some p'
    ∧ length (cardNames (ui p')) = length (cardNames (ui p))
    ∧ cardNames (ui p') !! index = Some name
    ∧ (∀ j, j ≠ index → cardNames (ui p') !! j = cardNames (ui p) !! j)
    ∧ question (ui p') = question (ui p)
    ∧ numCards (ui p') = numCards (ui p)
    ∧ reading (ui p') = reading (ui p)
    ∧ isLoading (ui p') = isLoading (ui p)
    ∧ error (ui p') = error (ui p)
    ∧ console p' = console p ∧ sent p' = sent p ∧ pending p' = pending p.
Proof.
  intros Hi. rewrite change_name_in_range by exact Hi.
  eexists. split; [reflexivity |]. simpl.
  split; [apply length_insert |].
  split; [by apply list_lookup_insert_eq |].
  split; [| done].
  intros j Hj. by apply list_lookup_insert_ne.
Qed.

Lemma setCardName_updates_witness :
  (1 < length (cardNames (ui sample_page)))%nat
  ∧ ∃ p', change_name 1 (lit "Death") sample_page = Some p'
      ∧ cardNames (ui p') = [lit "The Fool"; lit "Death"; lit "The Sun"].
Proof.
  split; [simpl; lia |].
  destruct (setCardName_updates sample_page 1 (lit "Death")) as (p' & Hp' & _);
    [simpl; lia |].
  exists p'. split; [exact Hp' |].
  injection Hp' as <-. reflexivity.
Defined.

(** X2: of two edits of the same card input the second one wins, and
    edits of different inputs give the same page in either order. *)
Theorem setCardName_composes (p : Page) i j a b :
  (i < length (cardNames (ui p)))%nat →
  (j < length (cardNames (ui p)))%nat →
  (change_name i a p ≫= change_name i b) = change_name i b p
  ∧ (i ≠ j →
     (change_name i a p ≫= change_name j b)
     = (change_name j b p ≫= change_name i a)).
Proof.
  intros Hi Hj. rewrite !change_name_in_range by assumption. simpl. split.
  - rewrite change_name_in_range by (simpl; by rewrite length_insert).
    simpl. unfold perform. simpl. by rewrite list_insert_insert_eq.
  - intros Hij.
    rewrite !change_name_in_range by (simpl; by rewrite length_insert).
    unfold perform. simpl. by rewrite list_insert_insert_ne.
Qed.

Lemma setCardName_composes_witness :
  (0 < length (cardNames (ui sample_page)))%nat
  ∧ (2 < length (cardNames (ui sample_page)))%nat
  ∧ (change_name 0 (lit "Star") sample_page ≫= change_name 0 (lit "Moon"))
    = change_name 0 (lit "Moon") sample_page
  ∧ (change_name 0 (lit "Star") sample_page ≫= change_name 2 (lit "Moon"))
    = (change_name 2 (lit "Moon") sample_page ≫= change_name 0 (lit "Star")).
Proof.
  assert (0 < length (cardNames (ui sample_page)))%nat as H0 by (simpl; lia).
  assert (2 < length (cardNames (ui sample_page)))%nat as H2 by (simpl; lia).
  split; [exact H0 |]. split; [exact H2 |].
  destruct (setCardName_composes sample_page 0 2 (lit "Star") (lit "Moon") H0 H2)
    as [Hlast Hcomm].
  split; [exact Hlast | apply Hcomm; lia].
Defined.

(** X3: typing the name a card input already holds leaves the page
    as it is. *)
Theorem setCardName_same_is_noop (p : Page) index name :
  cardNames (ui p) !! index = Some name →
  change_name index name p = Some p.
Proof.
  intros Hi. rewrite change_name_in_range by (by eapply lookup_lt_Some).
  by rewrite list_insert_id, perform_id_cardNames.
Qed.

Lemma setCardName_same_is_noop_witness :
  cardNames (ui sample_page) !! 2%nat = Some (lit "The Sun")
  ∧ change_name 2 (lit "The Sun") sample_page = Some sample_page.
Proof.
  split; [reflexivity |].
  apply (setCardName_same_is_noop sample_page 2 (lit "The Sun")). reflexivity.
Defined.

(** X4: an assignment at the index one past the end, which no rendered
    input produces, makes the array one longer and leaves the count, so
    the array is then longer than the count says. *)
Theorem setCardName_at_length_appends (p : Page) name :
  Z.of_nat (length (cardNames (ui p))) = numCards (ui p) →
  ∃ p', change_name (length (cardNames (ui p))) name p = Some p'
    ∧ cardNames (ui p') = cardNames (ui p) ++ [name]
    ∧ numCards (ui p') = numCards (ui p)
    ∧ Z.of_nat (length (cardNames (ui p'))) = numCards (ui p') + 1.
Proof.
  intros Hlen. unfold change_name, handleCardNameChange, array_set.
  rewrite decide_False by lia. rewrite decide_True by reflexivity.
  eexists. split; [reflexivity |]. simpl.
  rewrite length_app. simpl. repeat split. lia.
Qed.

Lemma setCardName_at_length_appends_witness :
  Z.of_nat (length (cardNames (ui sample_page))) = numCards (ui sample_page)
  ∧ ∃ p', change_name 3 (lit "Tower") sample_page = Some p'
      ∧ cardNames (ui p')
        = [lit "The Fool"; lit " "; lit "The Sun"; lit "Tower"]
      ∧ numCards (ui p') = 3.
Proof.
  split; [reflexivity |].
  destruct (setCardName_at_length_appends sample_page (lit "Tower") eq_refl)
    as (p' & Hp' & Hn & Hc & _).
  exists p'. split; [exact Hp' |]. split; [exact Hn | exact Hc].
Defined.

(** ** Changing the count (lines 17-21) *)

Lemma click_count_in_range p num :
  0 ≤ num < 2 ^ 32 →
  click_count num p
  = perform (setCardNames (resized (cardNames (ui p)) num))
            (perform (setNumCards num) p).
Proof. apply handleNumCardsChange_exec. Qed.

Lemma resized_lookup_ge names num i :
  (Z.to_nat num ≤ i)%nat → resized names num !! i = None.
Proof. intros H. apply lookup_ge_None_2. by rewrite resized_length. Qed.

Lemma resized_same names :
  resized names (Z.of_nat (length names)) = names.
Proof.
  apply list_eq. intros i.
  destruct (decide (i < length names)%nat) as [Hi | Hi].
  - rewrite resized_lookup by lia.
    destruct (lookup_lt_is_Some_2 names i Hi) as [name Hname].
    by rewrite Hname.
  - rewrite resized_lookup_ge by lia. symmetry. apply lookup_ge_None_2. lia.
Qed.

(** X5: lowering the count to m and then setting it to n keeps the
    names below m only: every slot from m on is empty afterwards, also
    where a name had been typed in before. *)
Theorem count_down_then_up (p : Page) (m n : Z) :
  0 ≤ m < 2 ^ 32 → 0 ≤ n < 2 ^ 32 →
  let p' := click_count n (click_count m p) in
  numCards (ui p') = n
  ∧ Z.of_nat (length (cardNames (ui p'))) = n
  ∧ (∀ i, (i < Z.to_nat n)%nat → (i < Z.to_nat m)%nat →
          cardNames (ui p') !! i = Some (default [] (cardNames (ui p) !! i)))
  ∧ (∀ i, (i < Z.to_nat n)%nat → (Z.to_nat m ≤ i)%nat →
          cardNames (ui p') !! i = Some []).
Proof.
  intros Hm Hn p'. subst p'. rewrite !click_count_in_range by assumption.
  simpl. split; [reflexivity |]. split; [rewrite resized_length; lia |].
  split; intros i Hi Him; rewrite resized_lookup by exact Hi.
  - by rewrite resized_lookup by exact Him.
  - by rewrite resized_lookup_ge by exact Him.
Qed.

Lemma count_down_then_up_witness :
  0 ≤ 1 < 2 ^ 32 ∧ 0 ≤ 3 < 2 ^ 32
  ∧ cardNames (ui (click_count 3 (click_count 1 sample_page)))
    = [lit "The Fool"; []; []].
Proof.
  assert (0 ≤ 1 < 2 ^ 32) as H1 by lia.
  assert (0 ≤ 3 < 2 ^ 32) as H3 by lia.
  split; [exact H1 |]. split; [exact H3 |].
  destruct (count_down_then_up sample_page 1 3 H1 H3) as (_ & _ & Hlow & Hhigh).
  apply list_eq. intros [|[|[|i]]].
  - apply (Hlow 0%nat); simpl; lia.
  - apply (Hhigh 1%nat); simpl; lia.
  - apply (Hhigh 2%nat); simpl; lia.
  - reflexivity.
Defined.

(** X6: a click on the count the array already has changes nothing. *)
Theorem click_same_count_is_noop (p : Page) :
  Z.of_nat (length (cardNames (ui p))) = numCards (ui p) →
  numCards (ui p) < 2 ^ 32 →
  click_count (numCards (ui p)) p = p.
Proof.
  intros Hlen Hlt. rewrite click_count_in_range by lia.
  rewrite <- Hlen at 1. rewrite resized_same.
  by destruct p as [[] ? ? ?].
Qed.

Lemma click_same_count_is_noop_witness :
  Z.of_nat (length (cardNames (ui sample_page))) = numCards (ui sample_page)
  ∧ numCards (ui sample_page) < 2 ^ 32
  ∧ click_count 3 sample_page = sample_page.
Proof.
  split; [reflexivity |]. split; [reflexivity |].
  apply (click_same_count_is_noop sample_page); reflexivity.
Defined.

(** * Further properties of the submission *)

(** The four ways through [generateReading], with their conditions. *)
Lemma submit_cases env p :
  (trim (question (ui p)) = []
   ∧ submit env p = perform (setError msg_question) p)
  ∨ (trim (question (ui p)) ≠ []
     ∧ Forall (λ name, trim name = []) (cardNames (ui p))
     ∧ submit env p = perform (setError msg_cards) p)
  ∨ (trim (question (ui p)) ≠ []
     ∧ Exists (λ name, trim name ≠ []) (cardNames (ui p))
     ∧ key_missing env
     ∧ submit env p = perform (setError msg_apiKey) p)
  ∨ (trim (question (ui p)) ≠ []
     ∧ Exists (λ name, trim name ≠ []) (cardNames (ui p))
     ∧ ∃ key, env = Some key ∧ key ≠ [] ∧ submit env p = requested key p).
Proof.
  destruct (decide (trim (question (ui p)) = [])) as [Hq | Hq].
  { left. split; [done |]. by apply submit_blank_question. }
  destruct (decide (Forall (λ name, trim name = []) (cardNames (ui p))))
    as [Hc | Hc].
  { right; left. repeat split; [done | done |]. by apply submit_blank_cards. }
  assert (Exists (λ name, trim name ≠ []) (cardNames (ui p))) as He
    by (by apply not_Forall_Exists; [apply _ |]).
  right; right. destruct env as [[|c key]|].
  - left. repeat split; [done | done | by right |].
    apply submit_key_missing; [done | done | by right].
  - right. repeat split; [done | done |]. exists (c :: key).
    repeat split; [done |]. by apply submit_requested.
  - left. repeat split; [done | done | by left |].
    apply submit_key_missing; [done | done | by left].
Qed.

(** X7: a submit sends a request if and only if the question and at
    least one card name are non-empty after trimming and the API key is
    a non-empty string. *)
Theorem submit_sends_iff env (p : Page) :
  sent (submit env p) ≠ sent p
  ↔ trim (question (ui p)) ≠ []
    ∧ Exists (λ name, trim name ≠ []) (cardNames (ui p))
    ∧ ∃ key, env = Some key ∧ key ≠ [].
Proof.
  destruct (submit_cases env p)
    as [(Hq & ->) | [(Hq & Hc & ->) | [(Hq & Hc & Hk & ->)
        | (Hq & Hc & key & Hk & Hne & ->)]]]; simpl.
  - split; [done | by intros (? & _)].
  - split; [done |]. intros (_ & He & _). by apply some_card_filled in He.
  - split; [done |]. intros (_ & _ & key & -> & Hne).
    by destruct Hk as [? | [= ->]].
  - split; [by eauto |]. intros _. apply (requested_sent key p).
Qed.

(** X8: the two validation messages in terms of characters: the
    question message is set exactly when the question holds white space
    only, the card message exactly when the question does not and every
    card name does. *)
Theorem validation_by_characters env (p : Page) :
  (error (ui (submit env p)) = msg_question
   ↔ Forall is_whitespace (question (ui p)))
  ∧ (error (ui (submit env p)) = msg_cards
     ↔ ¬ Forall is_whitespace (question (ui p))
       ∧ Forall (Forall is_whitespace) (cardNames (ui p))).
Proof.
  assert (∀ names : list jsstring,
            Forall (λ name, trim name = []) names
            ↔ Forall (Forall is_whitespace) names) as Hnames.
  { intros names. apply Forall_proper; [| done]. intros name. apply trim_nil. }
  rewrite <- (trim_nil (question (ui p))), <- (Hnames (cardNames (ui p))).
  destruct (submit_cases env p)
    as [(Hq & ->) | [(Hq & Hc & ->) | [(Hq & Hc%some_card_filled & Hk & ->)
        | (Hq & Hc%some_card_filled & key & Hk & Hne & ->)]]]; simpl;
    (split; split; try done; try (by intros [? ?])).
Qed.

(** X9: a submit never changes what the user filled in, nor the
    reading: question, count and card names are the same afterwards on
    every path, and so they are when the request settles. *)
Theorem submit_keeps_the_form env (p : Page) :
  question (ui (submit env p)) = question (ui p)
  ∧ numCards (ui (submit env p)) = numCards (ui p)
  ∧ cardNames (ui (submit env p)) = cardNames (ui p)
  ∧ reading (ui (submit env p)) = reading (ui p)
  ∧ ∀ outcome q,
      question (ui (exec (on_settled outcome) q)) = question (ui q)
      ∧ numCards (ui (exec (on_settled outcome) q)) = numCards (ui q)
      ∧ cardNames (ui (exec (on_settled outcome) q)) = cardNames (ui q).
Proof.
  destruct (submit_shape env p) as [(msg & _ & ->) | (key & ->)];
    (repeat split; by destruct outcome).
Qed.

(** * Further invariants of the page *)

Lemma initial_page_sound env : page_sound env initial_page.
Proof. split; simpl; [lia | constructor | constructor]. Qed.

Lemma step_page_sound env p ev p' :
  page_ok p → page_sound env p → step env p ev = Some p' → page_sound env p'.
Proof.
  intros [_ Hload] [Hcount Hcons Hsent] Hstep.
  destruct ev as [q | num | index name | | outcome]; unfold step in Hstep.
  - injection Hstep as <-. by split.
  - destruct (Z.leb_spec 1 num); [| discriminate].
    destruct (Z.leb_spec num 10); [| discriminate].
    assert (p' = click_count num p) as ->
      by (cbn [andb] in Hstep; unfold click_count; congruence).
    rewrite click_count_in_range by lia. split; simpl; [lia | done | done].
  - destruct (decide (index < length (cardNames (ui p)))%nat) as [Hi|];
      [| discriminate].
    fold (change_name index name p) in Hstep.
    rewrite change_name_in_range in Hstep by exact Hi.
    injection Hstep as <-. by split.
  - destruct (isLoading (ui p)); [discriminate |]. injection Hstep as <-.
    destruct (submit_cases env p)
      as [(_ & ->) | [(_ & _ & ->) | [(_ & _ & _ & ->)
          | (_ & _ & key & Hk & Hne & ->)]]]; try (by split).
    split; simpl; [done | done |].
    apply Forall_app. split; [done |].
    apply Forall_singleton. by eexists _, _.
  - destruct Hload as [[_ Hp] | (_ & Hp & _)].
    + unfold settle in Hstep. by rewrite Hp in Hstep.
    + rewrite (settle_on_settled _ _ _ Hp) in Hstep. injection Hstep as <-.
      destruct outcome as [completion | err]; split; simpl; try done.
      apply Forall_app. split; [done |].
      apply Forall_singleton. by eexists.
Qed.

Lemma reachable_page_sound env p : reachable env p → page_sound env p.
Proof.
  intros [evs Hrun].
  apply (run_preserves env (λ q, page_ok q ∧ page_sound env q)
           (λ q ev q' '(conj Hok Hs) Hstep,
              conj (step_page_ok env q ev q' Hok Hstep)
                   (step_page_sound env q ev q' Hok Hs Hstep))
           evs initial_page p (conj initial_page_ok (initial_page_sound env)) Hrun).
Qed.

(** X10: whatever the user does, the count stays one of 1 to 10 and
    the form shows between one and ten card inputs. *)
Theorem numCards_in_range env (p : Page) :
  reachable env p →
  1 ≤ numCards (ui p) ≤ 10
  ∧ (1 ≤ length (cardNames (ui p)) ≤ 10)%nat.
Proof.
  intros Hr. destruct (reachable_page_sound env p Hr) as [Hc _ _].
  destruct (reachable_page_ok env p Hr) as [Hl _]. lia.
Qed.

Lemma numCards_in_range_witness :
  reachable sample_key sample_page
  ∧ 1 ≤ numCards (ui sample_page) ≤ 10
  ∧ (1 ≤ length (cardNames (ui sample_page)) ≤ 10)%nat.
Proof.
  assert (reachable sample_key sample_page) as Hr
    by (exists sample_events; reflexivity).
  split; [exact Hr |]. exact (numCards_in_range sample_key sample_page Hr).
Defined.

(** X11: the form never throws and logs nothing but service failures:
    every console entry is a logged failure of a request, under the
    label of line 101. *)
Theorem console_only_logs_failures env (p : Page) :
  reachable env p →
  Forall (λ entry, ∃ err, entry = Logged (lit "Error generating reading:") err)
         (console p).
Proof. intros Hr. by destruct (reachable_page_sound env p Hr). Qed.

Lemma console_only_logs_failures_witness :
  ∃ p, run sample_key initial_page resubmit_events = Some p
    ∧ console p = [Logged (lit "Error generating reading:") (lit "timeout")]
    ∧ Forall (λ entry, ∃ err, entry = Logged (lit "Error generating reading:") err)
             (console p).
Proof.
  eexists. split; [vm_compute; reflexivity |]. split; [reflexivity |].
  apply (console_only_logs_failures sample_key).
  exists resubmit_events. vm_compute. reflexivity.
Defined.

(** X12: every request the page ever sent carries the configured,
    non-empty key and the fixed parameters: model, system message, one
    user message, token limit and temperature. *)
Theorem requests_are_uniform env (p : Page) :
  reachable env p →
  Forall (λ req, ∃ key prompt,
            env = Some key ∧ key ≠ []
            ∧ apiKey req = key
            ∧ model req = lit "gpt-4"
            ∧ messages req
              = [ {| role := lit "system"; content := system_content |};
                  {| role := lit "user"; content := prompt |} ]
            ∧ max_tokens req = 2000
            ∧ temperature_tenths req = 7)
         (sent p).
Proof.
  intros Hr. destruct (reachable_page_sound env p Hr) as [_ _ Hs].
  eapply Forall_impl; [exact Hs |]. simpl.
  intros req (key & prompt & Hk & Hne & ->). by exists key, prompt.
Qed.

Lemma requests_are_uniform_witness :
  ∃ p, run sample_key initial_page resubmit_events = Some p
    ∧ length (sent p) = 3%nat
    ∧ Forall (λ req, ∃ key prompt,
                sample_key = Some key ∧ key ≠ []
                ∧ apiKey req = key
                ∧ model req = lit "gpt-4"
                ∧ messages req
                  = [ {| role := lit "system"; content := system_content |};
                      {| role := lit "user"; content := prompt |} ]
                ∧ max_tokens req = 2000
                ∧ temperature_tenths req = 7)
             (sent p).
Proof.
  eexists. split; [vm_compute; reflexivity |]. split; [reflexivity |].
  apply (requests_are_uniform sample_key).
  exists resubmit_events. vm_compute. reflexivity.
Defined.

(** X13: with the API key undefined or empty the page never sends or
    awaits a request, never shows the loading state, never shows a
    reading and logs nothing, whatever the user does. *)
Theorem no_key_no_request env (p : Page) :
  key_missing env → reachable env p →
  sent p = [] ∧ pending p = [] ∧ isLoading (ui p) = false
  ∧ reading (ui p) = [] ∧ console p = [].
Proof.
  intros Hk [evs Hrun].
  refine (run_preserves env
            (λ q, sent q = [] ∧ pending q = [] ∧ isLoading (ui q) = false
                  ∧ reading (ui q) = [] ∧ console q = [])
            _ evs initial_page p _ Hrun); [| done].
  clear Hrun. intros q ev q' (Hs & Hp & Hl & Hr & Hc) Hstep.
  destruct ev as [text | num | index name | | outcome]; unfold step in Hstep.
  - by injection Hstep as <-.
  - destruct (Z.leb_spec 1 num); [| discriminate].
    destruct (Z.leb_spec num 10); [| discriminate].
    assert (q' = click_count num q) as ->
      by (cbn [andb] in Hstep; unfold click_count; congruence).
    by rewrite click_count_in_range by lia.
  - destruct (decide (index < length (cardNames (ui q)))%nat) as [Hi|];
      [| discriminate].
    fold (change_name index name q) in Hstep.
    rewrite change_name_in_range in Hstep by exact Hi.
    by injection Hstep as <-.
  - rewrite Hl in Hstep. injection Hstep as <-.
    destruct (submit_cases env q)
      as [(_ & ->) | [(_ & _ & ->) | [(_ & _ & _ & ->)
          | (_ & _ & key & Hsome & Hne & _)]]]; try done.
    by destruct Hk as [-> | ->]; simplify_eq.
  - unfold settle in Hstep. by rewrite Hp in Hstep.
Qed.

Lemma no_key_no_request_witness :
  key_missing (Some [])
  ∧ ∃ p, run (Some []) initial_page (sample_events ++ [ClickSubmit]) = Some p
      ∧ error (ui p) = msg_apiKey
      ∧ sent p = [] ∧ pending p = [] ∧ isLoading (ui p) = false
      ∧ reading (ui p) = [] ∧ console p = [].
Proof.
  assert (key_missing (Some [])) as Hk by (by right).
  split; [exact Hk |].
  eexists. split; [vm_compute; reflexivity |]. split; [reflexivity |].
  apply (no_key_no_request (Some [])); [exact Hk |].
  exists (sample_events ++ [ClickSubmit]). vm_compute. reflexivity.
Defined.

(** X14: there is never more than one request awaited, and the submit
    button refuses a click exactly while one is. *)
Theorem at_most_one_awaited env (p : Page) :
  reachable env p →
  (length (pending p) ≤ 1)%nat
  ∧ (step env p ClickSubmit = None ↔ pending p ≠ []).
Proof.
  intros [_ Hload]%reachable_page_ok. simpl.
  destruct Hload as [[-> ->] | (-> & -> & _)]; simpl; split; done || lia.
Qed.

Lemma at_most_one_awaited_witness :
  ∃ p, run sample_key initial_page resubmit_events = Some p
    ∧ length (pending p) = 1%nat
    ∧ step sample_key p ClickSubmit = None.
Proof.
  eexists. split; [vm_compute; reflexivity |]. split; [reflexivity |].
  eapply (at_most_one_awaited sample_key).
  - exists resubmit_events. vm_compute. reflexivity.
  - discriminate.
Defined.

(** X15: editing the form (question, count or a card name) leaves the
    results as they are: an error message or a reading stays on display
    until a later submit, and nothing is sent, awaited or logged. *)
Theorem edits_keep_results env (p p' : Page) ev :
  step env p ev = Some p' →
  ev ≠ ClickSubmit → (∀ outcome, ev ≠ Settle outcome) →
  reading (ui p') = reading (ui p)
  ∧ error (ui p') = error (ui p)
  ∧ isLoading (ui p') = isLoading (ui p)
  ∧ console p' = console p ∧ sent p' = sent p ∧ pending p' = pending p.
Proof.
  intros Hstep Hsub Hset.
  destruct ev as [text | num | index name | | outcome]; unfold step in Hstep.
  - by injection Hstep as <-.
  - destruct (Z.leb_spec 1 num); [| discriminate].
    destruct (Z.leb_spec num 10); [| discriminate].
    assert (p' = click_count num p) as ->
      by (cbn [andb] in Hstep; unfold click_count; congruence).
    by rewrite click_count_in_range by lia.
  - destruct (decide (index < length (cardNames (ui p)))%nat) as [Hi|];
      [| discriminate].
    fold (change_name index name p) in Hstep.
    rewrite change_name_in_range in Hstep by exact Hi.
    by injection Hstep as <-.
  - done.
  - by destruct (Hset outcome).
Qed.

Lemma edits_keep_results_witness :
  step None (submit None sample_page) (ChangeCardName 0 (lit "The Star"))
  = Some (perform (setCardNames [lit "The Star"; lit " "; lit "The Sun"])
                  (submit None sample_page))
  ∧ error (ui (perform (setCardNames [lit "The Star"; lit " "; lit "The Sun"])
                       (submit None sample_page))) = msg_apiKey.
Proof.
  assert (step None (submit None sample_page) (ChangeCardName 0 (lit "The Star"))
          = Some (perform (setCardNames [lit "The Star"; lit " "; lit "The Sun"])
                          (submit None sample_page))) as Hstep by reflexivity.
  split; [exact Hstep |].
  destruct (edits_keep_results None _ _ _ Hstep) as (_ & He & _);
    [discriminate | discriminate |].
  rewrite He. reflexivity.
Defined.

(** * Properties of the rendered form (lines 107-232) *)

Lemma count_button_numbers s :
  cb_num <$> v_count_buttons (render s) = [1; 2; 3; 4; 5; 6; 7; 8; 9; 10].
Proof. reflexivity. Qed.

Lemma elem_of_one_to_ten (num : Z) :
  num ∈ [1; 2; 3; 4; 5; 6; 7; 8; 9; 10] ↔ 1 ≤ num ≤ 10.
Proof.
  rewrite !elem_of_cons, elem_of_nil. lia.
Qed.

(** X16: the page accepts a user event exactly when the rendered form
    offers it: any edit of the question, a count among the buttons
    shown, an index among the card inputs shown, and a submit unless the
    button is disabled. *)
Theorem form_offers_what_page_accepts env (p : Page) ev :
  (∀ outcome, ev ≠ Settle outcome) →
  is_Some (step env p ev) ↔ offers (render (ui p)) ev = true.
Proof.
  intros Hev.
  destruct ev as [text | num | index name | | outcome]; unfold step, offers.
  - split; [done | by eexists].
  - rewrite bool_decide_eq_true, count_button_numbers, elem_of_one_to_ten.
    destruct (Z.leb_spec 1 num); destruct (Z.leb_spec num 10); cbn [andb].
    + split; [intros _; lia | intros _; by eexists].
    + split; [by intros [? ?] | lia].
    + split; [by intros [? ?] | lia].
    + split; [by intros [? ?] | lia].
  - rewrite bool_decide_eq_true. simpl. rewrite length_imap.
    fold (change_name index name p).
    destruct (decide (index < length (cardNames (ui p)))%nat) as [Hi | Hi].
    + rewrite change_name_in_range by exact Hi. split; [done | by eexists].
    + split; [by intros [? ?] | done].
  - simpl. destruct (isLoading (ui p)); simpl.
    + split; [by intros [? ?] | done].
    + split; [done | by eexists].
  - by destruct (Hev outcome).
Qed.

Lemma form_offers_what_page_accepts_witness :
  is_Some (step sample_key sample_page (ClickNumCards 10))
  ∧ ¬ is_Some (step sample_key sample_page (ClickNumCards 11))
  ∧ ¬ is_Some (step sample_key sample_page (ChangeCardName 3 []))
  ∧ ¬ is_Some (step sample_key (submit sample_key sample_page) ClickSubmit).
Proof.
  split; [| split; [| split]].
  - apply (form_offers_what_page_accepts sample_key sample_page (ClickNumCards 10));
      [discriminate | reflexivity].
  - rewrite (form_offers_what_page_accepts sample_key sample_page (ClickNumCards 11))
      by discriminate.
    discriminate.
  - rewrite (form_offers_what_page_accepts sample_key sample_page
               (ChangeCardName 3 [])) by discriminate.
    discriminate.
  - rewrite (form_offers_what_page_accepts sample_key
               (submit sample_key sample_page) ClickSubmit) by discriminate.
    discriminate.
Defined.

(** X17: on every page the form can be in, exactly one count button
    is highlighted, the one of the current count, and the form shows as
    many card inputs as that count. *)
Theorem one_count_button_selected env (p : Page) :
  reachable env p →
  filter (λ b, cb_selected b = true) (v_count_buttons (render (ui p)))
  = [ {| cb_num := numCards (ui p); cb_selected := true |} ]
  ∧ Z.of_nat (length (v_card_inputs (render (ui p)))) = numCards (ui p).
Proof.
  intros Hr. destruct (reachable_page_sound env p Hr) as [Hc _ _].
  destruct (reachable_page_ok env p Hr) as [Hl _].
  split; [| simpl; by rewrite length_imap].
  assert (numCards (ui p) ∈ [1; 2; 3; 4; 5; 6; 7; 8; 9; 10]) as Hin
    by (by apply elem_of_one_to_ten).
  simpl. generalize dependent (numCards (ui p)). intros n _ _ Hin.
  rewrite !elem_of_cons, elem_of_nil in Hin.
  repeat (destruct Hin as [-> | Hin]; [reflexivity |]). done.
Qed.

Lemma one_count_button_selected_witness :
  reachable sample_key sample_page
  ∧ filter (λ b, cb_selected b = true) (v_count_buttons (render (ui sample_page)))
    = [ {| cb_num := 3; cb_selected := true |} ]
  ∧ Z.of_nat (length (v_card_inputs (render (ui sample_page)))) = 3.
Proof.
  assert (reachable sample_key sample_page) as Hr
    by (exists sample_events; reflexivity).
  split; [exact Hr |].
  exact (one_count_button_selected sample_key sample_page Hr).
Defined.

(** X18: what the form shows once the awaited request has settled.
    After a completion the reading box shows the stored text, no error
    box is shown and the submit button is enabled again; after a failure
    the error box shows the failure message, the reading box is as
    before and the button is enabled again. *)
Theorem view_after_settling env (p p' : Page) outcome :
  reachable env p → settle outcome p = Some p' →
  v_submit_disabled (render (ui p')) = false
  ∧ v_submit_label (render (ui p')) = lit "Brew Some Magic"
  ∧ match outcome with
    | Resolved completion =>
        v_reading (render (ui p')) = Some (readingText completion)
        ∧ v_error (render (ui p')) = None
    | Rejected _ =>
        v_error (render (ui p')) = Some msg_failed
        ∧ v_reading (render (ui p')) = v_reading (render (ui p))
    end.
Proof.
  intros [_ Hload]%reachable_page_ok Hs.
  destruct Hload as [[_ Hp] | (_ & Hp & He)].
  { unfold settle in Hs. by rewrite Hp in Hs. }
  rewrite (settle_on_settled _ _ _ Hp) in Hs. injection Hs as <-.
  destruct outcome as [completion | err]; simpl; [| done].
  rewrite He. repeat split. unfold shown_if_truthy.
  by rewrite (proj2 (truthy_true _) (readingText_not_nil completion)).
Qed.

Lemma view_after_settling_witness :
  reachable sample_key (submit sample_key sample_page)
  ∧ ∃ p', settle (Resolved (sample_completion (Some [])))
                 (submit sample_key sample_page) = Some p'
      ∧ v_reading (render (ui p')) = Some msg_fallback
      ∧ v_error (render (ui p')) = None
      ∧ v_submit_disabled (render (ui p')) = false.
Proof.
  assert (reachable sample_key (submit sample_key sample_page)) as Hr
    by (exists (sample_events ++ [ClickSubmit]); reflexivity).
  split; [exact Hr |].
  eexists. split; [reflexivity |].
  destruct (view_after_settling sample_key (submit sample_key sample_page) _
              (Resolved (sample_completion (Some []))) Hr eq_refl)
    as (Hd & _ & Hv & He).
  split; [exact Hv |]. split; [exact He | exact Hd].
Defined.
